(** * fix_pbxproj.py: the project.pbxproj quoting patch

    A shallow embedding of [apps/expo-community/fix_pbxproj.py].  The script
    reads one text file, looks for a fixed literal, replaces it, writes the
    file back and reports on standard output; when the literal is missing it
    prints some context around a shorter marker and exits with status 1.

    Python text is modelled as a list of Unicode code points, the three
    string operations the script uses ([in], [str.replace], [str.find]) and
    slicing are written out, and the script itself is a computation in a
    small state-and-exception monad over the file and standard output.
    Both [open] calls are in text mode: reading translates the line endings,
    so the script works on the text as read, not on the stored one. *)

From Equations Require Import Equations.
From Stdlib Require Import Ascii String List Arith ZArith NArith Lia Bool.
Import ListNotations.

Set Implicit Arguments.

(** ** Text *)

(** A character is a code point; a [str] is Python's immutable [str]. *)
Definition char := N.
Definition str := list char.

(** A source literal made of plain characters. *)
Definition lit (s : string) : str := map N_of_ascii (list_ascii_of_string s).

(** The two characters backslash and double quote, which the source
    literals spell with a doubled backslash and a double quote. *)
Definition esc_quote : str := [92%N; 34%N].

Module PyStr.

(** [s.startswith(pat)]. *)
Fixpoint startswith (pat s : str) : bool :=
  match pat, s with
  | [], _ => true
  | _ :: _, [] => false
  | a :: pat', b :: s' => N.eqb a b && startswith pat' s'
  end.

(** [sub in s]. *)
Fixpoint str_in (sub s : str) : bool :=
  startswith sub s ||
  match s with
  | [] => false
  | _ :: t => str_in sub t
  end.

(** The lowest index at which [sub] starts in [s], if any. *)
Fixpoint find_nat (sub s : str) : option nat :=
  if startswith sub s then Some 0
  else match s with
       | [] => None
       | _ :: t => option_map S (find_nat sub t)
       end.

(** [s.find(sub)]: the lowest index, or -1. *)
Definition find (s sub : str) : Z :=
  match find_nat sub s with
  | Some i => Z.of_nat i
  | None => (-1)%Z
  end.

(** [s.replace(old, new)]: the occurrences of [old] are taken from the left
    and do not overlap; an empty [old] matches before every character and
    at the end. *)
Equations? replace (old new s : str) : str by wf (length s) lt :=
  replace [] new s := new ++ flat_map (fun c => c :: new) s;
  replace (o :: old') new [] := [];
  replace (o :: old') new (c :: t) :=
    if startswith (o :: old') (c :: t)
    then new ++ replace (o :: old') new (skipn (length old') t)
    else c :: replace (o :: old') new t.
Proof.
  simpl. rewrite length_skipn. lia.
Qed.

(** An index of a slice, brought into [0 .. len] the way Python does:
    a negative index counts from the end. *)
Definition clip (len i : Z) : Z :=
  if (i <? 0)%Z then Z.max 0 (i + len) else Z.min i len.

(** [s[a:b]]. *)
Definition slice (s : str) (a b : Z) : str :=
  let len := Z.of_nat (length s) in
  let lo := clip len a in
  let hi := clip len b in
  firstn (Z.to_nat (hi - lo)) (skipn (Z.to_nat lo) s).

End PyStr.

Import PyStr.

(** ** The constants of the script *)

Definition p : str := lit "ios/CasagrownCommunity.xcodeproj/project.pbxproj".

(** The problematic pattern (backtick execution, unquoted result). *)
Definition old : str :=
  lit "`" ++ esc_quote ++ lit "$NODE_BINARY" ++ esc_quote
  ++ lit " --print " ++ esc_quote
  ++ lit "require('path').dirname(require.resolve('react-native/package.json')) + '/scripts/react-native-xcode.sh'"
  ++ esc_quote ++ lit "`".

(** The fix: store the path in a variable and execute it with quotes. *)
Definition new : str :=
  lit "REACT_NATIVE_XCODE_PATH=$(" ++ esc_quote ++ lit "$NODE_BINARY" ++ esc_quote
  ++ lit " --print " ++ esc_quote
  ++ lit "require('path').dirname(require.resolve('react-native/package.json')) + '/scripts/react-native-xcode.sh'"
  ++ esc_quote ++ lit ")\n" ++ esc_quote ++ lit "$REACT_NATIVE_XCODE_PATH" ++ esc_quote.

(** The marker searched for when the pattern is missing. *)
Definition marker : str := lit "react-native-xcode".

(** ** The file system and the process *)

(** A path names nothing, or a file with its permissions and its text: the
    characters stored in it, carriage returns included.
    [readable]: opening the path for reading and reading it all succeeds;
    [writable]: opening it for writing and writing it succeeds. *)
Inductive file :=
| Missing
| Present (readable writable : bool) (text : str).

(** What a [print] call was given: a string, or the [repr] of a string.
    [repr] is Python's own, so its result is kept symbolic. *)
Inductive printed :=
| Str (s : str)
| Repr (s : str).

(** The exceptions that can leave the script.  [FileNotFoundError] and
    [PermissionError] are both [OSError]s. *)
Inductive exn :=
| OSError
| SystemExit (code : Z).

Definition str_eqb (a b : str) : bool :=
  if list_eq_dec N.eq_dec a b then true else false.

(** The files as the script can name them, one path for one file (other
    names of the same file are not part of the model), and what was printed. *)
Record world := World { files : str -> file; stdout : list printed }.

Definition write_file (fs : str -> file) (path : str) (f : file) : str -> file :=
  fun q => if str_eqb q path then f else fs q.

Module IO.

(** A computation runs in a world and ends with a value or an exception. *)
Definition M (A : Type) : Type := world -> (A + exn) * world.

Definition ret {A} (a : A) : M A := fun w => (inl a, w).

Definition bind {A B} (m : M A) (k : A -> M B) : M B :=
  fun w => match m w with
           | (inl a, w') => k a w'
           | (inr e, w') => (inr e, w')
           end.

Definition raise {A} (e : exn) : M A := fun w => (inr e, w).

(** What reading in text mode does to line endings: a carriage return
    followed by a line feed, and a carriage return alone, both arrive as one
    line feed. *)
Fixpoint universal_newlines (s : str) : str :=
  match s with
  | [] => []
  | c :: t =>
      if N.eqb c 13
      then 10%N :: match t with
                   | d :: t' => if N.eqb d 10 then universal_newlines t'
                                else universal_newlines t
                   | [] => []
                   end
      else c :: universal_newlines t
  end.

(** [with open(path, 'r') as f: return f.read()].  The file is opened in
    text mode, so the script gets the text with its line endings
    translated. *)
Definition read_text (path : str) : M str :=
  fun w => match files w path with
           | Present true _ text => (inl (universal_newlines text), w)
           | _ => (inr OSError, w)
           end.

(** [with open(path, 'w') as f: f.write(s)].  Opening truncates; a path
    that names nothing yet is created.  The line separator of the systems
    an Xcode project is built on is the line feed, so the characters of [s]
    are stored as they are.  A write that fails after the file was opened
    is not part of the model. *)
Definition write_text (path : str) (s : str) : M unit :=
  fun w => match files w path with
           | Present r true _ =>
               (inl tt, World (write_file (files w) path (Present r true s)) (stdout w))
           | Present _ false _ => (inr OSError, w)
           | Missing =>
               (inl tt, World (write_file (files w) path (Present true true s)) (stdout w))
           end.

(** [print(x)]. *)
Definition print (x : printed) : M unit :=
  fun w => (inl tt, World (files w) (stdout w ++ [x])).

(** [sys.exit(code)]. *)
Definition sys_exit (code : Z) : M unit := raise (SystemExit code).

End IO.

Import IO.

Notation "x <- m ;; k" := (bind m (fun x => k))
  (at level 61, m at next level, right associativity).
Notation "m ;; k" := (bind m (fun _ => k))
  (at level 61, right associativity).

(** ** The script *)

Definition script : M unit :=
  content <- read_text p ;;
  if str_in old content then
    let content := replace old new content in
    write_text p content ;;
    print (Str (lit "PATCHED successfully"))
  else
    print (Str (lit "Pattern not found, dumping context...")) ;;
    let idx := find content marker in
    (if (idx >=? 0)%Z
     then print (Repr (slice content (Z.max 0 (idx - 150)) (idx + 200)))
     else print (Str (lit "react-native-xcode not found in file at all"))) ;;
    sys_exit 1.

(** The status the interpreter hands to the operating system: 0 when the
    script runs to its end, the argument of [sys.exit], and 1 for an
    exception nobody caught. *)
Definition exit_status (r : unit + exn) : Z :=
  match r with
  | inl _ => 0%Z
  | inr (SystemExit code) => code
  | inr OSError => 1%Z
  end.

(** One run of the tool on a file system, with nothing printed yet. *)
Definition run (fs : str -> file) : (unit + exn) * world :=
  script (World fs []).

Definition status_of (fs : str -> file) : Z := exit_status (fst (run fs)).
Definition output_of (fs : str -> file) : list printed := stdout (snd (run fs)).
Definition files_after (fs : str -> file) : str -> file := files (snd (run fs)).

(** A file system in which the target has the given permissions and text
    and no other path names anything. *)
Definition only_target (r w : bool) (text : str) : str -> file :=
  write_file (fun _ => Missing) p (Present r w text).

(** ** Notions used to state the properties *)

(** [occurs sub s]: [sub] is a substring of [s]. *)
Definition occurs (sub s : str) : Prop := exists u v, s = u ++ sub ++ v.

(** [lastn n l]: the last [n] elements of [l], all of it when it is shorter. *)
Definition lastn (n : nat) (l : str) : str := skipn (length l - n) l.

(** What [replace] is meant to compute, as a relation: the text is cut at the
    leftmost occurrence of the pattern, that occurrence is exchanged, and the
    rest is treated the same way, until no occurrence is left. *)
Inductive replaced (pat rep : str) : str -> str -> Prop :=
| replaced_none s :
    ~ occurs pat s -> replaced pat rep s s
| replaced_next u t r :
    (forall u' v', u ++ pat ++ t = u' ++ pat ++ v' -> length u <= length u') ->
    replaced pat rep t r ->
    replaced pat rep (u ++ pat ++ t) (u ++ rep ++ r).

(** The three fixed lines the script prints. *)
Definition msg_patched : printed := Str (lit "PATCHED successfully").
Definition msg_not_found : printed := Str (lit "Pattern not found, dumping context...").
Definition msg_no_marker : printed := Str (lit "react-native-xcode not found in file at all").

(** The window the script prints for a text. *)
Definition context_of (content : str) : str :=
  let idx := find content marker in
  slice content (Z.max 0 (idx - 150)) (idx + 200).

(** ** Facts about the string operations *)


Section StringFacts.

Lemma startswith_spec pat s :
  startswith pat s = true <-> exists v, s = pat ++ v.
Proof.
  revert s. induction pat as [|a pat IH]; intros s; simpl.
  - split; [intros _; exists s; reflexivity | reflexivity].
  - destruct s as [|b s].
    + split; [discriminate | intros [v H]; discriminate].
    + rewrite andb_true_iff, N.eqb_eq, IH. split.
      * intros [-> [v ->]]. exists v. reflexivity.
      * intros [v H]. injection H as -> ->. split; [reflexivity | now exists v].
Qed.

Lemma startswith_app pat v : startswith pat (pat ++ v) = true.
Proof. apply startswith_spec. now exists v. Qed.

Lemma startswith_nil_r pat : pat <> [] -> startswith pat [] = false.
Proof. destruct pat; [congruence | reflexivity]. Qed.

Lemma str_in_spec sub s : str_in sub s = true <-> occurs sub s.
Proof.
  induction s as [|c t IH]; simpl.
  - rewrite orb_false_r, startswith_spec. split.
    + intros [v H]. exists [], v. exact H.
    + intros [u [v H]]. destruct u; [now exists v | discriminate].
  - rewrite orb_true_iff, startswith_spec, IH. split.
    + intros [[v H] | [u [v H]]].
      * exists [], v. exact H.
      * exists (c :: u), v. simpl. now rewrite H.
    + intros [u [v H]]. destruct u as [|c' u]; simpl in H.
      * left. now exists v.
      * right. injection H as _ H. now exists u, v.
Qed.

Lemma str_in_false sub s : str_in sub s = false <-> ~ occurs sub s.
Proof.
  rewrite <- str_in_spec. destruct (str_in sub s); split; congruence.
Qed.

Lemma occurs_trans a b c : occurs a b -> occurs b c -> occurs a c.
Proof.
  intros [u [v ->]] [u' [v' ->]]. exists (u' ++ u), (v ++ v').
  now rewrite <- !app_assoc.
Qed.

(** An occurrence that starts at index [j], said with [startswith]. *)
Lemma startswith_skipn pat s j :
  (startswith pat (skipn j s) = true /\ j <= length s)
  <-> exists u v, s = u ++ pat ++ v /\ length u = j.
Proof.
  rewrite startswith_spec. split.
  - intros [[v H] Hj]. exists (firstn j s), v. split.
    + now rewrite <- H, firstn_skipn.
    + rewrite length_firstn. lia.
  - intros [u [v [-> <-]]]. split.
    + exists v. rewrite skipn_app, Nat.sub_diag, skipn_all. reflexivity.
    + rewrite length_app. lia.
Qed.

(** [find_nat] returns the first index at which [sub] starts. *)
Lemma find_nat_some sub s i :
  find_nat sub s = Some i ->
  startswith sub (skipn i s) = true /\ i <= length s /\
  forall j, j < i -> startswith sub (skipn j s) = false.
Proof.
  revert i. induction s as [|c t IH]; intros i; simpl.
  - destruct (startswith sub []) eqn:E; [|discriminate].
    intros [= <-]. simpl. repeat split; [exact E | lia | lia].
  - destruct (startswith sub (c :: t)) eqn:E.
    + intros [= <-]. simpl. repeat split; [exact E | lia | lia].
    + destruct (find_nat sub t) as [k|] eqn:F; [|discriminate].
      intros [= <-]. destruct (IH k eq_refl) as [H1 [H2 H3]].
      simpl. repeat split; [exact H1 | lia |].
      intros [|j] Hj; simpl; [exact E | apply H3; lia].
Qed.

Lemma find_nat_none sub s : find_nat sub s = None <-> str_in sub s = false.
Proof.
  induction s as [|c t IH]; simpl.
  - destruct (startswith sub []); simpl; split; congruence.
  - destruct (startswith sub (c :: t)); simpl; [split; congruence|].
    rewrite <- IH. destruct (find_nat sub t); simpl; split; congruence.
Qed.

(** The test [s.find(sub) >= 0] of the script is the test [sub in s]. *)
Lemma find_nonneg s sub : (find s sub >=? 0)%Z = str_in sub s.
Proof.
  unfold find. destruct (find_nat sub s) as [i|] eqn:F.
  - destruct (str_in sub s) eqn:E.
    + apply Z.geb_le. lia.
    + apply find_nat_none in E. congruence.
  - apply find_nat_none in F. now rewrite F.
Qed.

(** The shape of a text around the first occurrence of [sub]. *)
Lemma find_nat_split sub s i :
  find_nat sub s = Some i ->
  exists u v, s = u ++ sub ++ v /\ length u = i /\
    forall u' v', s = u' ++ sub ++ v' -> i <= length u'.
Proof.
  intros F. destruct (find_nat_some _ _ F) as [H1 [H2 H3]].
  destruct (proj1 (startswith_skipn sub s i) (conj H1 H2)) as [u [v [Hs Hu]]].
  exists u, v. repeat split; [exact Hs | exact Hu |].
  intros u' v' Hs'. destruct (Nat.le_gt_cases i (length u')) as [|Hlt]; [assumption|].
  specialize (H3 _ Hlt).
  assert (startswith sub (skipn (length u') s) = true) as E.
  { apply startswith_skipn. now exists u', v'. }
  congruence.
Qed.

End StringFacts.

(** ** Facts about [replace] *)


Section ReplaceFacts.

(** Induction along the scan that [replace] performs with a non-empty
    pattern: stop at the end, jump over a match, or step over one character. *)
Lemma scan_ind pat (Hne : pat <> []) (P : str -> Prop) :
  P [] ->
  (forall t, P t -> P (pat ++ t)) ->
  (forall c t, startswith pat (c :: t) = false -> P t -> P (c :: t)) ->
  forall s, P s.
Proof.
  intros H0 Hhit Hmiss s.
  assert (forall n s', length s' <= n -> P s') as H.
  { induction n as [|n IHn]; intros s' Hl.
    - destruct s'; [exact H0 | simpl in Hl; lia].
    - destruct s' as [|c t]; [exact H0|].
      destruct (startswith pat (c :: t)) eqn:E.
      + apply startswith_spec in E as [v E]. rewrite E. apply Hhit, IHn.
        assert (length (c :: t) = length pat + length v) as L
          by (rewrite E, length_app; reflexivity).
        destruct pat; [congruence|]. simpl in *. lia.
      + apply Hmiss; [exact E|]. apply IHn. simpl in Hl. lia. }
  apply (H (length s)). lia.
Qed.

Lemma replace_nil pat rep : pat <> [] -> replace pat rep [] = [].
Proof. intros Hne. destruct pat; [congruence | now simp replace]. Qed.

Lemma replace_hit pat rep t :
  pat <> [] -> replace pat rep (pat ++ t) = rep ++ replace pat rep t.
Proof.
  intros Hne. destruct pat as [|o pat']; [congruence|].
  simpl. simp replace.
  change (o :: pat' ++ t) with ((o :: pat') ++ t). rewrite startswith_app.
  now rewrite skipn_app, Nat.sub_diag, skipn_all.
Qed.

Lemma replace_miss pat rep c t :
  startswith pat (c :: t) = false ->
  replace pat rep (c :: t) = c :: replace pat rep t.
Proof.
  intros E. destruct pat as [|o pat']; [discriminate|].
  simp replace. now rewrite E.
Qed.

(** A text without the pattern is returned as it is. *)
Lemma replace_absent pat rep s :
  pat <> [] -> str_in pat s = false -> replace pat rep s = s.
Proof.
  intros Hne. induction s as [|c t IH]; intros E.
  - now apply replace_nil.
  - simpl in E. apply orb_false_iff in E as [E1 E2].
    rewrite replace_miss by exact E1. now rewrite IH.
Qed.

(** The leftmost occurrence is exchanged and the scan resumes after it. *)
Lemma replace_first pat rep u t :
  pat <> [] ->
  (forall u' v', u ++ pat ++ t = u' ++ pat ++ v' -> length u <= length u') ->
  replace pat rep (u ++ pat ++ t) = u ++ rep ++ replace pat rep t.
Proof.
  intros Hne. induction u as [|c u IH]; intros Hleft; simpl.
  - now apply replace_hit.
  - rewrite replace_miss.
    + f_equal. apply IH. intros u' v' E.
      specialize (Hleft (c :: u') v'). simpl in Hleft.
      rewrite E in Hleft. specialize (Hleft eq_refl). lia.
    + destruct (startswith pat (c :: u ++ pat ++ t)) eqn:E; [|reflexivity].
      apply startswith_spec in E as [v E].
      specialize (Hleft [] v E). simpl in Hleft. lia.
Qed.

Lemma replaced_cons pat rep c t r :
  startswith pat (c :: t) = false ->
  replaced pat rep t r -> replaced pat rep (c :: t) (c :: r).
Proof.
  intros E H. destruct H as [s Hno | u t r Hleft H].
  - apply replaced_none. intros [u [v Huv]].
    destruct u as [|c' u]; simpl in Huv.
    + assert (startswith pat (c :: s) = true) by (apply startswith_spec; now exists v).
      congruence.
    + injection Huv as _ Huv. apply Hno. now exists u, v.
  - change (replaced pat rep ((c :: u) ++ pat ++ t) ((c :: u) ++ rep ++ r)).
    apply replaced_next; [|exact H].
    intros [|c' u'] v' Huv; simpl in Huv.
    + assert (startswith pat (c :: u ++ pat ++ t) = true)
        by (apply startswith_spec; now exists v').
      congruence.
    + injection Huv as _ Huv. specialize (Hleft _ _ Huv). simpl. lia.
Qed.

(** [replace] meets the relation ... *)
Lemma replace_replaced pat rep s :
  pat <> [] -> replaced pat rep s (replace pat rep s).
Proof.
  intros Hne. induction s as [| t IH | c t E IH] using (scan_ind Hne).
  - rewrite replace_nil by exact Hne. apply replaced_none.
    intros [u [v H]]. destruct u, pat; try discriminate; congruence.
  - rewrite replace_hit by exact Hne.
    apply (replaced_next (pat:=pat) (rep:=rep) [] (t:=t)); [simpl; lia | exact IH].
  - rewrite replace_miss by exact E. now apply replaced_cons.
Qed.

(** ... and the relation allows no other result. *)
Lemma replaced_sound pat rep s r :
  pat <> [] -> replaced pat rep s r -> r = replace pat rep s.
Proof.
  intros Hne H. induction H as [s Hno | u t r Hleft H IH].
  - symmetry. apply replace_absent; [exact Hne | now apply str_in_false].
  - rewrite replace_first by assumption. now rewrite IH.
Qed.

(** A text with a single occurrence of the pattern. *)
Lemma replace_once pat rep u v :
  pat <> [] ->
  (forall u' v', u ++ pat ++ v = u' ++ pat ++ v' -> u' = u) ->
  replace pat rep (u ++ pat ++ v) = u ++ rep ++ v.
Proof.
  intros Hne Hone. rewrite replace_first.
  - rewrite replace_absent; [reflexivity | exact Hne |].
    apply str_in_false. intros [a [b ->]].
    specialize (Hone (u ++ pat ++ a) b). rewrite <- !app_assoc in Hone.
    specialize (Hone eq_refl). apply (f_equal (@length _)) in Hone.
    rewrite !length_app in Hone. destruct pat; [congruence | simpl in Hone; lia].
  - exact Hne.
  - intros u' v' E. now rewrite (Hone _ _ E).
Qed.

(** After a replacement the replacement text is there. *)
Lemma replace_leaves_rep pat rep s :
  pat <> [] -> str_in pat s = true -> occurs rep (replace pat rep s).
Proof.
  intros Hne. induction s as [| t IH | c t E IH] using (scan_ind Hne); intros Hin.
  - simpl in Hin. rewrite orb_false_r, startswith_nil_r in Hin by exact Hne.
    discriminate.
  - rewrite replace_hit by exact Hne. now exists [], (replace pat rep t).
  - rewrite replace_miss by exact E. simpl in Hin. rewrite E in Hin.
    destruct (IH Hin) as [u [v H]]. exists (c :: u), v. simpl. now rewrite H.
Qed.

End ReplaceFacts.

(** ** When the pattern cannot come back

    A pattern that begins and ends with a character the replacement does
    not use, and whose inside is shorter than the replacement, is gone after
    [replace]: no occurrence can start in replaced text, and one that starts
    in kept text would have to run across a whole replacement. *)

Section Clears.

Lemma startswith_app_short a b x :
  startswith a (b ++ x) = true -> length a <= length b -> exists b', b = a ++ b'.
Proof.
  revert b. induction a as [|c a IH]; intros b H L.
  - now exists b.
  - destruct b as [|d b]; [simpl in L; lia|].
    simpl in H. apply andb_true_iff in H as [H1 H2].
    apply N.eqb_eq in H1 as ->.
    destruct (IH b H2) as [b' ->]; [simpl in L; lia|]. now exists b'.
Qed.

(** A short word ending in [c] that starts the result already started the
    input. *)
Lemma tail_survives c pat rep (Hne : pat <> []) t :
  ~ In c rep ->
  forall Y, length Y < length rep ->
  startswith (Y ++ [c]) (replace pat rep t) = true ->
  startswith (Y ++ [c]) t = true.
Proof.
  intros Hc.
  induction t as [| t IH | ch t E IH] using (scan_ind Hne); intros Y HL H.
  - rewrite replace_nil in H by exact Hne. exact H.
  - exfalso. rewrite replace_hit in H by exact Hne.
    apply startswith_app_short in H as [b' Hb].
    + apply Hc. rewrite Hb, <- app_assoc. apply in_or_app. right. now left.
    + rewrite length_app. simpl. lia.
  - rewrite replace_miss in H by exact E.
    destruct Y as [|y Y]; simpl in *.
    + apply andb_true_iff in H as [H _]. now rewrite H.
    + apply andb_true_iff in H as [H1 H2]. rewrite H1. simpl.
      apply IH; [lia | exact H2].
Qed.

Variables (c : char) (mid pat rep : str).
Hypothesis pat_shape : pat = c :: mid ++ [c].
Hypothesis c_fresh : ~ In c rep.
Hypothesis mid_short : length mid < length rep.

Lemma pat_nonempty : pat <> [].
Proof. rewrite pat_shape. discriminate. Qed.

(** The result never starts with the pattern. *)
Lemma replace_no_head s : startswith pat (replace pat rep s) = false.
Proof.
  destruct s as [| t _ | ch t E _] using (scan_ind pat_nonempty).
  - rewrite replace_nil by exact pat_nonempty.
    apply startswith_nil_r, pat_nonempty.
  - rewrite replace_hit by exact pat_nonempty.
    destruct rep as [|r0 rep']; [simpl in mid_short; lia|].
    rewrite pat_shape at 1. simpl.
    destruct (N.eqb_spec c r0) as [->|]; [|reflexivity].
    exfalso. apply c_fresh. now left.
  - rewrite replace_miss by exact E.
    destruct (startswith pat (ch :: replace pat rep t)) eqn:F; [|reflexivity].
    exfalso. rewrite pat_shape in F at 1. rewrite pat_shape in E at 1.
    simpl in F, E.
    apply andb_true_iff in F as [F1 F2]. rewrite F1 in E. simpl in E.
    pose proof (@tail_survives c pat rep pat_nonempty t c_fresh mid mid_short F2).
    congruence.
Qed.

Lemma str_in_fresh_prefix l r :
  (forall x, In x l -> x <> c) ->
  str_in pat r = false -> str_in pat (l ++ r) = false.
Proof.
  intros Hl Hr. induction l as [|a l IH]; [exact Hr|].
  simpl. rewrite IH by (intros x Hx; apply Hl; now right).
  rewrite pat_shape at 1. simpl.
  destruct (N.eqb_spec c a) as [->|]; [|reflexivity].
  exfalso. now apply (Hl a); [left|].
Qed.

(** The result does not contain the pattern. *)
Lemma replace_clears s : str_in pat (replace pat rep s) = false.
Proof.
  induction s as [| t IH | ch t E IH] using (scan_ind pat_nonempty).
  - rewrite replace_nil by exact pat_nonempty. simpl.
    rewrite orb_false_r. apply startswith_nil_r, pat_nonempty.
  - rewrite replace_hit by exact pat_nonempty.
    apply str_in_fresh_prefix; [|exact IH].
    intros x Hx ->. now apply c_fresh.
  - pose proof (replace_no_head (ch :: t)) as H.
    rewrite replace_miss in * by exact E.
    change (str_in pat (ch :: replace pat rep t))
      with (startswith pat (ch :: replace pat rep t) || str_in pat (replace pat rep t)).
    now rewrite H, IH.
Qed.

End Clears.

(** The assumption that the pattern is not inside the replacement would not
    be enough for an arbitrary pair of strings: the text around a match can
    complete a new occurrence. *)
Example replace_can_rebuild_pattern :
  str_in (lit "ab") (lit "a") = false /\
  replace (lit "ab") (lit "a") (lit "abb") = lit "ab".
Proof. split; reflexivity. Qed.

(** ** The context window *)

Section Window.

Lemma firstn_min_length (w : str) n : firstn (Nat.min n (length w)) w = firstn n w.
Proof.
  destruct (Nat.le_gt_cases n (length w)).
  - now rewrite Nat.min_l.
  - rewrite Nat.min_r, firstn_all, firstn_all2 by lia. reflexivity.
Qed.

(** The slice [s[max(0, i-150) : i+200]] for an index [i] inside [s]: up to
    150 characters before [i] and up to 200 from [i] on. *)
Lemma slice_window s i :
  i <= length s ->
  slice s (Z.max 0 (Z.of_nat i - 150)) (Z.of_nat i + 200)
  = lastn 150 (firstn i s) ++ firstn 200 (skipn i s).
Proof.
  intros Hi. pose proof (firstn_skipn i s) as Hs.
  assert (length (firstn i s) = i) as Lu by (rewrite length_firstn; lia).
  revert Hs Lu. generalize (firstn i s) (skipn i s). intros u w <- <-.
  clear Hi. unfold slice, clip, lastn. rewrite length_app.
  destruct (Z.ltb_spec (Z.max 0 (Z.of_nat (length u) - 150)) 0) as [|_]; [lia|].
  destruct (Z.ltb_spec (Z.of_nat (length u) + 200) 0) as [|_]; [lia|].
  match goal with |- firstn ?n (skipn ?m _) = _ =>
    replace m with (length u - 150) by lia;
    replace n with (length (skipn (length u - 150) u) + Nat.min 200 (length w))
      by (rewrite length_skipn; lia)
  end.
  rewrite skipn_app. replace (length u - 150 - length u) with 0 by lia.
  rewrite skipn_O, firstn_app_2, firstn_min_length. reflexivity.
Qed.

End Window.

(** ** Facts about the constants *)

Section Constants.

Lemma old_nonempty : old <> [].
Proof. discriminate. Qed.

(** The pattern is a backtick, an inside, and a backtick. *)
Lemma old_shape : old = 96%N :: removelast (tl old) ++ [96%N].
Proof. reflexivity. Qed.

(** The replacement has no backtick. *)
Lemma new_no_backtick : ~ In 96%N new.
Proof.
  assert (forallb (fun x => negb (N.eqb x 96)) new = true) as H by reflexivity.
  rewrite forallb_forall in H. intros Hin. specialize (H _ Hin). discriminate.
Qed.

Lemma old_inside_short : length (removelast (tl old)) < length new.
Proof. apply Nat.ltb_lt. reflexivity. Qed.

Lemma length_marker : length marker = 18.
Proof. reflexivity. Qed.

Lemma marker_in_old : str_in marker old = true.
Proof. reflexivity. Qed.

Lemma marker_in_new : str_in marker new = true.
Proof. reflexivity. Qed.

Lemma old_not_in_new : str_in old new = false.
Proof. reflexivity. Qed.

(** Whatever the text, the pattern is gone after the replacement. *)
Lemma replace_old_clears s : str_in old (replace old new s) = false.
Proof.
  apply replace_clears with (c := 96%N) (mid := removelast (tl old));
    [exact old_shape | exact new_no_backtick | exact old_inside_short].
Qed.

(** A text that holds the pattern holds the marker. *)
Lemma marker_of_old s : str_in old s = true -> str_in marker s = true.
Proof.
  intros H. apply str_in_spec.
  apply occurs_trans with old; apply str_in_spec; [exact marker_in_old | exact H].
Qed.

(** After the replacement the marker is still in the text. *)
Lemma marker_after_replace s :
  str_in old s = true -> str_in marker (replace old new s) = true.
Proof.
  intros H. apply str_in_spec. apply occurs_trans with new.
  - apply str_in_spec. exact marker_in_new.
  - apply replace_leaves_rep; [exact old_nonempty | exact H].
Qed.

End Constants.

(** ** Line endings *)

Section Newlines.

Lemma str_in_nil s : str_in [] s = true.
Proof. destruct s; reflexivity. Qed.

(** A word without carriage return and line feed starts the text as read
    exactly when it starts the text as stored. *)
Lemma startswith_universal pat s :
  (forall x, In x pat -> x <> 13%N /\ x <> 10%N) ->
  startswith pat (universal_newlines s) = startswith pat s.
Proof.
  revert s. induction pat as [|a pat IH]; intros s Hp; [reflexivity|].
  destruct (Hp a (or_introl eq_refl)) as [Ha13 Ha10].
  assert (forall x, In x pat -> x <> 13%N /\ x <> 10%N) as Hp'
    by (intros x Hx; apply Hp; now right).
  destruct s as [|c t]; [reflexivity|].
  cbn [universal_newlines]. destruct (N.eqb_spec c 13) as [->|Hc].
  - cbn [startswith].
    destruct (N.eqb_spec a 10); [congruence|].
    destruct (N.eqb_spec a 13); [congruence|]. reflexivity.
  - cbn [startswith]. now rewrite IH.
Qed.

(** Such a word is in the text as read exactly when it is in the text as
    stored. *)
Lemma str_in_universal pat s :
  (forall x, In x pat -> x <> 13%N /\ x <> 10%N) ->
  str_in pat (universal_newlines s) = str_in pat s.
Proof.
  intros Hp. destruct pat as [|a pat']; [now rewrite !str_in_nil|].
  set (pat := a :: pat') in *.
  destruct (Hp a (or_introl eq_refl)) as [Ha13 Ha10].
  assert (forall t, startswith pat (13%N :: t) = false) as H13.
  { intros t. unfold pat. cbn [startswith].
    destruct (N.eqb_spec a 13); [congruence | reflexivity]. }
  assert (forall t, startswith pat (10%N :: t) = false) as H10.
  { intros t. unfold pat. cbn [startswith].
    destruct (N.eqb_spec a 10); [congruence | reflexivity]. }
  assert (forall n s', length s' <= n ->
            str_in pat (universal_newlines s') = str_in pat s') as H.
  { induction n as [|n IHn]; intros s' Hl.
    - destruct s'; [reflexivity | simpl in Hl; lia].
    - destruct s' as [|c t]; [reflexivity|].
      cbn [universal_newlines]. destruct (N.eqb_spec c 13) as [->|Hc].
      + destruct t as [|d t'].
        * cbn [str_in]. now rewrite H10, H13.
        * destruct (N.eqb_spec d 10) as [->|Hd].
          -- cbn [str_in]. rewrite !H10, H13. cbn [orb].
             apply IHn. simpl in Hl. lia.
          -- change (str_in pat (10%N :: universal_newlines (d :: t'))
                     = str_in pat (13%N :: d :: t')).
             change (str_in pat (10%N :: universal_newlines (d :: t')))
               with (startswith pat (10%N :: universal_newlines (d :: t'))
                     || str_in pat (universal_newlines (d :: t'))).
             change (str_in pat (13%N :: d :: t'))
               with (startswith pat (13%N :: d :: t') || str_in pat (d :: t')).
             rewrite H10, H13. cbn [orb]. apply IHn. simpl in Hl |- *. lia.
      + pose proof (@startswith_universal pat (c :: t) Hp) as HS.
        cbn [universal_newlines] in HS.
        rewrite (proj2 (N.eqb_neq c 13) Hc) in HS.
        change (str_in pat (c :: universal_newlines t))
          with (startswith pat (c :: universal_newlines t)
                || str_in pat (universal_newlines t)).
        change (str_in pat (c :: t)) with (startswith pat (c :: t) || str_in pat t).
        rewrite HS. f_equal. apply IHn. simpl in Hl. lia. }
  apply (H (length s)). lia.
Qed.

(** The text as read has no carriage return ... *)
Lemma universal_no_cr s : ~ In 13%N (universal_newlines s).
Proof.
  assert (forall n s', length s' <= n -> ~ In 13%N (universal_newlines s')) as H.
  { induction n as [|n IHn]; intros s' Hl.
    - destruct s'; [intros [] | simpl in Hl; lia].
    - destruct s' as [|c t]; [intros []|].
      cbn [universal_newlines]. destruct (N.eqb_spec c 13) as [->|Hc].
      + destruct t as [|d t']; [intros [E | []]; discriminate E|].
        destruct (N.eqb d 10); intros [E | E]; try discriminate E;
          revert E; apply IHn; simpl in Hl |- *; lia.
      + intros [E | E]; [congruence|]. revert E. apply IHn. simpl in Hl. lia. }
  apply (H (length s)). lia.
Qed.

(** ... and a text without carriage return is read as it is. *)
Lemma universal_id s : ~ In 13%N s -> universal_newlines s = s.
Proof.
  induction s as [|c t IH]; intros H; [reflexivity|].
  cbn [universal_newlines]. destruct (N.eqb_spec c 13) as [->|Hc].
  - exfalso. apply H. now left.
  - f_equal. apply IH. intros Hin. apply H. now right.
Qed.

(** [replace] brings in no carriage return that the replacement does not
    have. *)
Lemma replace_no_cr (pat rep s : str) :
  pat <> [] -> ~ In 13%N rep -> ~ In 13%N s -> ~ In 13%N (replace pat rep s).
Proof.
  intros Hne Hr. induction s as [| t IH | c t E IH] using (scan_ind Hne); intros Hs.
  - now rewrite replace_nil by exact Hne.
  - rewrite replace_hit by exact Hne. intros [H|H]%in_app_or; [now apply Hr|].
    revert H. apply IH. intros H. apply Hs. apply in_or_app. now right.
  - rewrite replace_miss by exact E. intros [H|H].
    + apply Hs. now left.
    + revert H. apply IH. intros H. apply Hs. now right.
Qed.

Lemma nl_free_check pat :
  forallb (fun x => negb (N.eqb x 13) && negb (N.eqb x 10)) pat = true ->
  forall x, In x pat -> x <> 13%N /\ x <> 10%N.
Proof.
  intros H x Hx. rewrite forallb_forall in H. specialize (H x Hx).
  apply andb_true_iff in H as [H1 H2].
  split; intros ->; discriminate.
Qed.

Lemma old_nl_free : forall x, In x old -> x <> 13%N /\ x <> 10%N.
Proof. apply nl_free_check. reflexivity. Qed.

Lemma marker_nl_free : forall x, In x marker -> x <> 13%N /\ x <> 10%N.
Proof. apply nl_free_check. reflexivity. Qed.

Lemma new_no_cr : ~ In 13%N new.
Proof.
  intros H. destruct (@nl_free_check new eq_refl _ H) as [E _]. now apply E.
Qed.

(** The pattern found in the stored text is found in the text as read. *)
Lemma found_as_read s :
  str_in old s = true -> str_in old (universal_newlines s) = true.
Proof. intros H. now rewrite (@str_in_universal old s old_nl_free). Qed.

(** The text a successful run writes is read back as it is. *)
Lemma patched_read_back s :
  universal_newlines (replace old new (universal_newlines s))
  = replace old new (universal_newlines s).
Proof.
  apply universal_id, replace_no_cr;
    [exact old_nonempty | exact new_no_cr | apply universal_no_cr].
Qed.

End Newlines.

(** ** Running the script *)


Section Runs.

Lemma str_eqb_refl a : str_eqb a a = true.
Proof. unfold str_eqb. destruct (list_eq_dec N.eq_dec a a); congruence. Qed.

Lemma str_eqb_neq a b : a <> b -> str_eqb a b = false.
Proof. unfold str_eqb. destruct (list_eq_dec N.eq_dec a b); congruence. Qed.

Lemma write_file_same fs path f : write_file fs path f path = f.
Proof. unfold write_file. now rewrite str_eqb_refl. Qed.

(** The file cannot be opened for reading. *)
Lemma run_unreadable fs :
  fs p = Missing \/ (exists w text, fs p = Present false w text) ->
  run fs = (inr OSError, World fs []).
Proof.
  intros H. unfold run, script, bind, read_text. cbn [files].
  destruct H as [-> | [w [text ->]]]; reflexivity.
Qed.

(** The pattern is there and the file can be written. *)
Lemma run_found fs text :
  fs p = Present true true text -> str_in old text = true ->
  run fs = (inl tt,
            World (write_file fs p
                     (Present true true (replace old new (universal_newlines text))))
                  [msg_patched]).
Proof.
  intros Hfs Hin. unfold run, script, bind, read_text, write_text, print.
  cbn [files]. rewrite Hfs, (@str_in_universal old text old_nl_free), Hin.
  cbn [files stdout]. rewrite Hfs. reflexivity.
Qed.

(** The pattern is there but the file cannot be opened for writing. *)
Lemma run_found_readonly fs text :
  fs p = Present true false text -> str_in old text = true ->
  run fs = (inr OSError, World fs []).
Proof.
  intros Hfs Hin. unfold run, script, bind, read_text, write_text, print.
  cbn [files]. rewrite Hfs, (@str_in_universal old text old_nl_free), Hin.
  cbn [files stdout]. rewrite Hfs. reflexivity.
Qed.

(** The pattern is missing and the marker is there. *)
Lemma run_marker fs w text :
  fs p = Present true w text ->
  str_in old text = false -> str_in marker text = true ->
  run fs = (inr (SystemExit 1),
            World fs [msg_not_found; Repr (context_of (universal_newlines text))]).
Proof.
  intros Hfs Hold Hm.
  unfold run, script, bind, read_text, print, sys_exit, raise.
  cbn [files]. rewrite Hfs, (@str_in_universal old text old_nl_free), Hold.
  rewrite find_nonneg, (@str_in_universal marker text marker_nl_free), Hm. reflexivity.
Qed.

(** Neither the pattern nor the marker is there. *)
Lemma run_no_marker fs w text :
  fs p = Present true w text ->
  str_in old text = false -> str_in marker text = false ->
  run fs = (inr (SystemExit 1), World fs [msg_not_found; msg_no_marker]).
Proof.
  intros Hfs Hold Hm.
  unfold run, script, bind, read_text, print, sys_exit, raise.
  cbn [files]. rewrite Hfs, (@str_in_universal old text old_nl_free), Hold.
  rewrite find_nonneg, (@str_in_universal marker text marker_nl_free), Hm. reflexivity.
Qed.

(** Whatever the file system, a run that does not end with status 0 ends
    with status 1. *)
Lemma status_cases fs :
  (status_of fs = 0%Z /\
   exists text, fs p = Present true true text /\ str_in old text = true)
  \/ (status_of fs = 1%Z /\ files_after fs = fs).
Proof.
  unfold status_of, files_after.
  destruct (fs p) as [|r w text] eqn:Hfs.
  - right. rewrite run_unreadable by now left. now split.
  - destruct r.
    + destruct (str_in old text) eqn:Hold.
      * destruct w.
        -- left. rewrite (run_found _ Hfs Hold). split; [reflexivity | now exists text].
        -- right. rewrite (run_found_readonly _ Hfs Hold). now split.
      * right. destruct (str_in marker text) eqn:Hm.
        -- rewrite (run_marker _ Hfs Hold Hm). now split.
        -- rewrite (run_no_marker _ Hfs Hold Hm). now split.
    + right. rewrite run_unreadable by (right; now exists w, text). now split.
Qed.

(** A run that ends with status 0 found the pattern in a writable file. *)
Lemma status_zero_inv fs :
  status_of fs = 0%Z ->
  exists text, fs p = Present true true text /\ str_in old text = true.
Proof.
  intros H. destruct (status_cases fs) as [[_ H'] | [H' _]]; [exact H'|].
  rewrite H in H'. discriminate.
Qed.

End Runs.

(** ** The properties of the tool *)

(** The status is 0 exactly for a readable, writable target that holds the
    pattern; in particular a target that holds the pattern but cannot be
    opened for writing ends the run with the uncaught error. *)
Lemma status_zero_iff fs :
  status_of fs = 0%Z <->
  exists text, fs p = Present true true text /\ str_in old text = true.
Proof.
  split; [apply status_zero_inv|].
  intros [text [Hfs Hin]]. unfold status_of. now rewrite (run_found _ Hfs Hin).
Qed.

(** C1, as the code has it.  The file is read in text mode, so the pattern
    is replaced in the text as read: when the target can be read and written
    and its text holds the pattern, the run leaves in the target the text as
    read (every carriage return with its line feed, and every carriage
    return alone, turned into one line feed) with every occurrence of the
    pattern replaced (the occurrences taken from the left, as [replaced]
    says; for a single occurrence, the text with that occurrence exchanged).
    For a text without carriage return that is the stored text with every
    occurrence replaced.  The run prints the success message and ends with
    status 0. *)
Theorem patch_applied_as_read fs text :
  fs p = Present true true text ->
  str_in old text = true ->
  let content := universal_newlines text in
  files_after fs p = Present true true (replace old new content) /\
  (forall r, replaced old new content r <-> r = replace old new content) /\
  (forall u v, content = u ++ old ++ v ->
     (forall u' v', content = u' ++ old ++ v' -> u' = u) ->
     replace old new content = u ++ new ++ v) /\
  (~ In 13%N text -> files_after fs p = Present true true (replace old new text)) /\
  output_of fs = [msg_patched] /\
  status_of fs = 0%Z.
Proof.
  intros Hfs Hin content. unfold files_after, output_of, status_of.
  rewrite (run_found _ Hfs Hin). cbn [fst snd files stdout exit_status].
  fold content. rewrite write_file_same.
  split; [reflexivity|].
  split.
  { intros r. split.
    - apply replaced_sound, old_nonempty.
    - intros ->. apply replace_replaced, old_nonempty. }
  split.
  { intros u v E Hone. rewrite E in Hone |- *.
    apply replace_once; [exact old_nonempty | exact Hone]. }
  split; [|now split].
  intros Hcr. unfold content. now rewrite (universal_id _ Hcr).
Qed.

Lemma patch_applied_as_read_witness :
  let text := lit "sh " ++ old ++ [13%N; 10%N] ++ lit "end" in
  let fs := only_target true true text in
  (fs p = Present true true text /\ str_in old text = true) /\
  files_after fs p = Present true true (lit "sh " ++ new ++ [10%N] ++ lit "end") /\
  status_of fs = 0%Z.
Proof.
  intros text fs.
  assert (fs p = Present true true text) as Hfs by reflexivity.
  assert (str_in old text = true) as Hin by reflexivity.
  split; [now split|].
  destruct (patch_applied_as_read fs Hfs Hin) as (Hf & _ & _ & _ & _ & Hs).
  split; [|exact Hs]. rewrite Hf. reflexivity.
Defined.

(** C1 as it was stated fails on a text with carriage returns: the file
    after the run is not the stored text with the pattern replaced, because
    its line endings have changed too. *)
Lemma patch_applied_crlf_counterexample :
  let text := lit "line1" ++ [13%N; 10%N] ++ old ++ [13%N; 10%N]
              ++ lit "line2" ++ [13%N; 10%N] in
  let fs := only_target true true text in
  fs p = Present true true text /\
  str_in old text = true /\
  status_of fs = 0%Z /\
  files_after fs p <> Present true true (replace old new text).
Proof.
  intros text fs. repeat split; try reflexivity.
  intros H.
  apply (f_equal (fun f => match f with
                           | Present _ _ t => length t
                           | Missing => 0
                           end)) in H.
  vm_compute in H. discriminate H.
Qed.

(** C2.  When the text of the target does not hold the pattern, the run
    writes nothing: the file system after the run is the one before it. *)
Theorem absent_no_write fs r w text :
  fs p = Present r w text ->
  str_in old text = false ->
  files_after fs = fs.
Proof.
  intros Hfs Hold. destruct (status_cases fs) as [[_ [t [Ht Hin]]] | [_ H]].
  - rewrite Hfs in Ht. injection Ht as -> -> ->. congruence.
  - exact H.
Qed.

Lemma absent_no_write_witness :
  let text := lit "shellScript = react-native-xcode.sh" in
  let fs := only_target true true text in
  (fs p = Present true true text /\ str_in old text = false) /\
  files_after fs = fs.
Proof.
  intros text fs. split; [split; reflexivity|].
  apply (@absent_no_write fs true true text); reflexivity.
Defined.

(** C3, as the code has it.  For a readable target the status is 0 exactly
    when the pattern was found and the target could be opened for writing,
    and then the patched text was written; the status is not 0 exactly when
    the pattern was not found or the target could not be opened for
    writing. *)
Theorem exit_code_readable fs w text :
  fs p = Present true w text ->
  (status_of fs = 0%Z <-> str_in old text = true /\ w = true) /\
  (status_of fs = 0%Z ->
   files_after fs p
   = Present true true (replace old new (universal_newlines text))) /\
  (status_of fs <> 0%Z <-> str_in old text = false \/ w = false).
Proof.
  intros Hfs. unfold status_of, files_after.
  destruct (str_in old text) eqn:Hin.
  - destruct w.
    + rewrite (run_found _ Hfs Hin). cbn [fst snd files exit_status].
      rewrite write_file_same. repeat split; try congruence.
      intros [E | E]; discriminate E.
    + rewrite (run_found_readonly _ Hfs Hin). cbn [fst snd files exit_status].
      repeat split; try discriminate.
      * intros [_ E]. discriminate E.
      * now right.
  - assert (exit_status (fst (run fs)) = 1%Z) as Hs.
    { destruct (str_in marker text) eqn:Hm.
      - now rewrite (run_marker _ Hfs Hin Hm).
      - now rewrite (run_no_marker _ Hfs Hin Hm). }
    rewrite Hs. repeat split; try discriminate.
    + intros [E _]. discriminate E.
    + now left.
Qed.

Lemma exit_code_readable_witness :
  let text := lit "no pattern here" in
  let fs := only_target true true text in
  fs p = Present true true text /\
  (status_of fs <> 0%Z <-> str_in old text = false \/ true = false).
Proof.
  intros text fs. split; [reflexivity|].
  apply (@exit_code_readable fs true text). reflexivity.
Defined.

(** C3 as it was stated fails on a readable target that holds the pattern
    and cannot be opened for writing: the pattern is found and the status is
    not 0. *)
Lemma exit_code_readonly_counterexample :
  let fs := only_target true false old in
  fs p = Present true false old /\
  str_in old old = true /\
  status_of fs = 1%Z /\
  ~ (status_of fs <> 0%Z <-> str_in old old = false).
Proof.
  intros fs. repeat split; try reflexivity.
  intros [H _]. assert (str_in old old = false) as E.
  { apply H. discriminate. }
  discriminate E.
Qed.

(** C4.  Under the assumption that the pattern is not a substring of the
    replacement, the text of the target after a run that ended with status 0
    does not hold the pattern. *)
Theorem patched_has_no_pattern fs :
  str_in old new = false ->
  status_of fs = 0%Z ->
  exists text', files_after fs p = Present true true text' /\
                str_in old text' = false.
Proof.
  intros _ Hs. destruct (status_zero_inv _ Hs) as [text [Hfs Hin]].
  exists (replace old new (universal_newlines text)). unfold files_after.
  rewrite (run_found _ Hfs Hin). cbn [snd files].
  split; [apply write_file_same | apply replace_old_clears].
Qed.

Lemma patched_has_no_pattern_witness :
  let fs := only_target true true (old ++ lit "x" ++ old) in
  (str_in old new = false /\ status_of fs = 0%Z) /\
  exists text', files_after fs p = Present true true text' /\
                str_in old text' = false.
Proof.
  intros fs.
  assert (str_in old new = false) as Ha by reflexivity.
  assert (status_of fs = 0%Z) as Hs by reflexivity.
  split; [now split|]. exact (patched_has_no_pattern fs Ha Hs).
Defined.

(** C5.  A second run on the file left by a run that ended with status 0
    changes nothing in the file system and ends with status 1. *)
Theorem second_run_fails_unchanged fs :
  status_of fs = 0%Z ->
  files_after (files_after fs) = files_after fs /\
  status_of (files_after fs) = 1%Z.
Proof.
  intros Hs. destruct (status_zero_inv _ Hs) as [text [Hfs Hin]].
  assert (files_after fs
          = write_file fs p
              (Present true true (replace old new (universal_newlines text))))
    as -> by (unfold files_after; now rewrite (run_found _ Hfs Hin)).
  set (fs' := write_file fs p
                (Present true true (replace old new (universal_newlines text)))).
  assert (fs' p = Present true true (replace old new (universal_newlines text))) as Hfs'
    by apply write_file_same.
  unfold files_after, status_of.
  rewrite (run_marker _ Hfs' (replace_old_clears (universal_newlines text))
             (marker_after_replace _ (found_as_read _ Hin))).
  now split.
Qed.

Lemma second_run_fails_unchanged_witness :
  let fs := only_target true true (lit "a" ++ old) in
  status_of fs = 0%Z /\
  files_after (files_after fs) = files_after fs /\
  status_of (files_after fs) = 1%Z.
Proof.
  intros fs. assert (status_of fs = 0%Z) as Hs by reflexivity.
  split; [exact Hs | exact (second_run_fails_unchanged fs Hs)].
Defined.

(** C6.  When the text of a readable target holds the marker but not the
    pattern, the run prints, after the first line, the [repr] of a window
    around the first occurrence of the marker in the text as read (the
    stored text when it has no carriage return): the 150 characters before
    it (fewer at the start of the text), the marker, and the 182 characters
    after it (fewer at the end of the text); at most 350 characters in all,
    and 350 when the text reaches that far on both sides.  The file system
    is unchanged and the status is 1. *)
Theorem marker_context_window fs w text :
  fs p = Present true w text ->
  str_in old text = false ->
  str_in marker text = true ->
  let content := universal_newlines text in
  exists before after,
    content = before ++ marker ++ after /\
    (forall u v, content = u ++ marker ++ v -> length before <= length u) /\
    (~ In 13%N text -> content = text) /\
    let window := lastn 150 before ++ marker ++ firstn 182 after in
    output_of fs = [msg_not_found; Repr window] /\
    length window <= 350 /\
    (150 <= length before -> 182 <= length after -> length window = 350) /\
    status_of fs = 1%Z /\
    files_after fs = fs.
Proof.
  intros Hfs Hold Hm content.
  assert (str_in marker content = true) as Hm'
    by (unfold content; now rewrite (@str_in_universal marker text marker_nl_free)).
  destruct (find_nat marker content) as [i|] eqn:F;
    [|apply find_nat_none in F; congruence].
  destruct (find_nat_split _ _ F) as [before [after [Ht [Hi Hfirst]]]].
  exists before, after. split; [exact Ht|]. split; [now rewrite Hi|].
  split; [apply universal_id|].
  unfold output_of, status_of, files_after.
  rewrite (run_marker _ Hfs Hold Hm). cbn [fst snd files stdout exit_status].
  fold content.
  assert (context_of content = lastn 150 before ++ marker ++ firstn 182 after) as Hw.
  { unfold context_of, find. rewrite F, slice_window.
    - rewrite Ht, <- Hi.
      rewrite firstn_app, Nat.sub_diag, firstn_O, firstn_all, app_nil_r.
      rewrite skipn_app, Nat.sub_diag, skipn_all, skipn_O. cbn [app].
      rewrite firstn_app, length_marker, (@firstn_all2 _ 200 marker)
        by (rewrite length_marker; lia).
      reflexivity.
    - rewrite Ht, length_app. lia. }
  rewrite Hw. cbv zeta.
  assert (length (lastn 150 before ++ marker ++ firstn 182 after)
          = Nat.min 150 (length before) + 18 + Nat.min 182 (length after)) as L.
  { unfold lastn. rewrite !length_app, length_marker, length_skipn, length_firstn. lia. }
  rewrite L. repeat split; lia.
Qed.

Lemma marker_context_window_witness :
  let text := lit "sh -c" ++ [13%N; 10%N] ++ marker ++ lit ".sh" in
  let fs := only_target true false text in
  (fs p = Present true false text /\ str_in old text = false /\
   str_in marker text = true) /\
  exists before after,
    universal_newlines text = before ++ marker ++ after /\
    output_of fs = [msg_not_found; Repr (lastn 150 before ++ marker ++ firstn 182 after)].
Proof.
  intros text fs.
  assert (fs p = Present true false text) as Hfs by reflexivity.
  assert (str_in old text = false) as Hold by reflexivity.
  assert (str_in marker text = true) as Hm by reflexivity.
  split; [now repeat split|].
  destruct (marker_context_window fs Hfs Hold Hm)
    as (before & after & Ht & _ & _ & Hout & _).
  exists before, after. split; [exact Ht | exact Hout].
Defined.

(** C7.  When the text of a readable target holds neither the pattern nor
    the marker, the run prints, after the first line, that the marker is not
    in the file at all; the file system is unchanged and the status is 1. *)
Theorem marker_absent_message fs w text :
  fs p = Present true w text ->
  str_in old text = false ->
  str_in marker text = false ->
  output_of fs = [msg_not_found; msg_no_marker] /\
  files_after fs = fs /\
  status_of fs = 1%Z.
Proof.
  intros Hfs Hold Hm. unfold output_of, files_after, status_of.
  rewrite (run_no_marker _ Hfs Hold Hm). now repeat split.
Qed.

Lemma marker_absent_message_witness :
  let text := lit "shellScript = true;" in
  let fs := only_target true true text in
  (fs p = Present true true text /\ str_in old text = false /\
   str_in marker text = false) /\
  output_of fs = [msg_not_found; msg_no_marker] /\
  files_after fs = fs /\
  status_of fs = 1%Z.
Proof.
  intros text fs. split; [repeat split|].
  apply (@marker_absent_message fs true text); reflexivity.
Defined.

(** C8.  When the target does not exist or cannot be read, the error raised
    by [open] leaves the script uncaught: the status is not 0, nothing is
    printed (so no success message), and the file system is unchanged. *)
Theorem unreadable_propagates fs :
  fs p = Missing \/ (exists w text, fs p = Present false w text) ->
  fst (run fs) = inr OSError /\
  status_of fs <> 0%Z /\
  output_of fs = [] /\
  files_after fs = fs.
Proof.
  intros H. unfold status_of, output_of, files_after.
  rewrite (run_unreadable _ H). cbn [fst snd files stdout exit_status].
  repeat split. discriminate.
Qed.

Lemma unreadable_propagates_witness :
  let fs := fun _ : str => Missing in
  fs p = Missing /\
  fst (run fs) = inr OSError /\
  status_of fs <> 0%Z /\
  output_of fs = [] /\
  files_after fs = fs.
Proof.
  intros fs. split; [reflexivity|].
  apply (@unreadable_propagates fs). left. reflexivity.
Defined.

(** C9.  The replacement does not hold the pattern, the marker is inside
    the pattern, and, with no assumption, the text of the target after a run
    that ended with status 0 does not hold the pattern. *)
Theorem pattern_gone_unconditionally :
  str_in old new = false /\
  str_in marker old = true /\
  forall fs, status_of fs = 0%Z ->
    exists text', files_after fs p = Present true true text' /\
                  str_in old text' = false.
Proof.
  split; [exact old_not_in_new|]. split; [exact marker_in_old|].
  intros fs Hs. destruct (status_zero_inv _ Hs) as [text [Hfs Hin]].
  exists (replace old new (universal_newlines text)). unfold files_after.
  rewrite (run_found _ Hfs Hin). cbn [snd files].
  split; [apply write_file_same | apply replace_old_clears].
Qed.

Lemma pattern_gone_unconditionally_witness :
  let fs := only_target true true (lit "`" ++ old ++ old) in
  status_of fs = 0%Z /\
  exists text', files_after fs p = Present true true text' /\
                str_in old text' = false.
Proof.
  intros fs. assert (status_of fs = 0%Z) as Hs by reflexivity.
  split; [exact Hs|].
  exact (proj2 (proj2 pattern_gone_unconditionally) fs Hs).
Defined.

(** C10.  The replacement holds the marker; so a run on the file left by a
    run that ended with status 0 finds the marker and prints the context
    window, and does not print that the marker is missing. *)
Theorem rerun_prints_context :
  str_in marker new = true /\
  forall fs, status_of fs = 0%Z ->
    exists text', files_after fs p = Present true true text' /\
      str_in marker text' = true /\
      output_of (files_after fs) = [msg_not_found; Repr (context_of text')] /\
      ~ In msg_no_marker (output_of (files_after fs)).
Proof.
  split; [exact marker_in_new|].
  intros fs Hs. destruct (status_zero_inv _ Hs) as [text [Hfs Hin]].
  exists (replace old new (universal_newlines text)).
  assert (files_after fs
          = write_file fs p
              (Present true true (replace old new (universal_newlines text))))
    as -> by (unfold files_after; now rewrite (run_found _ Hfs Hin)).
  set (fs' := write_file fs p
                (Present true true (replace old new (universal_newlines text)))).
  assert (fs' p = Present true true (replace old new (universal_newlines text))) as Hfs'
    by apply write_file_same.
  pose proof (marker_after_replace _ (found_as_read _ Hin)) as Hm.
  unfold output_of.
  rewrite (run_marker _ Hfs' (replace_old_clears (universal_newlines text)) Hm).
  cbn [snd stdout]. rewrite patched_read_back.
  split; [exact Hfs'|]. split; [exact Hm|]. split; [reflexivity|].
  intros [H | [H | []]]; discriminate H.
Qed.

Lemma rerun_prints_context_witness :
  let fs := only_target true true (lit "x" ++ old ++ lit "y") in
  status_of fs = 0%Z /\
  exists text', files_after fs p = Present true true text' /\
      output_of (files_after fs) = [msg_not_found; Repr (context_of text')].
Proof.
  intros fs. assert (status_of fs = 0%Z) as Hs by reflexivity.
  split; [exact Hs|].
  destruct (proj2 rerun_prints_context fs Hs) as (text' & Hf & _ & Hout & _).
  exists text'. split; [exact Hf | exact Hout].
Defined.

(** ** Further properties of the script *)

Section MoreFacts.

(** The first occurrence, given by its shape, is what [find_nat] returns. *)
Lemma find_nat_first sub s u v :
  s = u ++ sub ++ v ->
  (forall u' v', s = u' ++ sub ++ v' -> length u <= length u') ->
  find_nat sub s = Some (length u).
Proof.
  intros Hs Hmin. destruct (find_nat sub s) as [i|] eqn:F.
  - destruct (find_nat_split _ _ F) as [u0 [v0 [H0 [L0 M0]]]].
    pose proof (M0 _ _ Hs). pose proof (Hmin _ _ H0). f_equal. lia.
  - apply find_nat_none, str_in_false in F. exfalso. apply F. now exists u, v.
Qed.

Lemma find_lower s sub : (-1 <= find s sub)%Z.
Proof. unfold find. destruct (find_nat sub s); lia. Qed.

(** A slice is a piece of the text it is taken from. *)
Lemma slice_occurs s a b : occurs (slice s a b) s.
Proof.
  unfold slice.
  set (lo := Z.to_nat (clip (Z.of_nat (length s)) a)).
  set (n := Z.to_nat (clip (Z.of_nat (length s)) b - clip (Z.of_nat (length s)) a)).
  exists (firstn lo s), (skipn n (skipn lo s)).
  now rewrite (firstn_skipn n), (firstn_skipn lo).
Qed.

Lemma slice_length s a b :
  (0 <= a)%Z -> (0 <= b)%Z -> length (slice s a b) <= Z.to_nat (b - a).
Proof.
  intros Ha Hb. unfold slice, clip. rewrite length_firstn.
  destruct (Z.ltb_spec a 0); destruct (Z.ltb_spec b 0); lia.
Qed.

(** The window around the first occurrence of the marker. *)
Lemma context_of_split text before after :
  text = before ++ marker ++ after ->
  (forall u v, text = u ++ marker ++ v -> length before <= length u) ->
  context_of text = lastn 150 before ++ marker ++ firstn 182 after.
Proof.
  intros Ht Hmin. unfold context_of, find.
  rewrite (@find_nat_first marker text before after Ht Hmin), slice_window.
  - rewrite Ht.
    rewrite firstn_app, Nat.sub_diag, firstn_O, firstn_all, app_nil_r.
    rewrite skipn_app, Nat.sub_diag, skipn_all, skipn_O. cbn [app].
    rewrite firstn_app, length_marker, (@firstn_all2 _ 200 marker)
      by (rewrite length_marker; lia).
    reflexivity.
  - rewrite Ht, length_app. lia.
Qed.

(** How the length changes under [replace]: one pattern less and one
    replacement more for each of the [k] matches. *)
Lemma replace_length pat rep s :
  pat <> [] ->
  exists k,
    length (replace pat rep s) + k * length pat = length s + k * length rep /\
    (str_in pat s = true -> 1 <= k).
Proof.
  intros Hne. induction s as [| t IH | c t E IH] using (scan_ind Hne).
  - exists 0. rewrite replace_nil by exact Hne. split; [reflexivity|].
    simpl. rewrite orb_false_r, startswith_nil_r by exact Hne. discriminate.
  - destruct IH as [k [IH _]]. exists (S k).
    rewrite replace_hit by exact Hne. rewrite !length_app, !Nat.mul_succ_l.
    split; lia.
  - destruct IH as [k [IH Hk]]. exists k.
    rewrite replace_miss by exact E. split; [simpl; lia|].
    simpl. rewrite E. exact Hk.
Qed.

Lemma length_old : length old = 135.
Proof. reflexivity. Qed.

Lemma length_new : length new = 190.
Proof. reflexivity. Qed.

(** The five ways a run can go. *)
Lemma run_cases fs :
  (exists text, fs p = Present true true text /\ str_in old text = true /\
     run fs = (inl tt,
               World (write_file fs p
                        (Present true true
                           (replace old new (universal_newlines text))))
                     [msg_patched]))
  \/ run fs = (inr OSError, World fs [])
  \/ (exists text, run fs = (inr (SystemExit 1),
                             World fs [msg_not_found; Repr (context_of text)]))
  \/ run fs = (inr (SystemExit 1), World fs [msg_not_found; msg_no_marker]).
Proof.
  destruct (fs p) as [|r w text] eqn:Hfs.
  - right. left. apply run_unreadable. now left.
  - destruct r.
    + destruct (str_in old text) eqn:Hold.
      * destruct w.
        -- left. exists text. repeat split; [exact Hold | exact (run_found _ Hfs Hold)].
        -- right. left. exact (run_found_readonly _ Hfs Hold).
      * destruct (str_in marker text) eqn:Hm.
        -- right. right. left. exists (universal_newlines text).
           exact (run_marker _ Hfs Hold Hm).
        -- right. right. right. exact (run_no_marker _ Hfs Hold Hm).
    + right. left. apply run_unreadable. right. now exists w, text.
Qed.

End MoreFacts.

Lemma first_in_window (sub B0 L A1 A2 : str) :
  (forall u v, (B0 ++ L) ++ sub ++ (A1 ++ A2) = u ++ sub ++ v ->
               length (B0 ++ L) <= length u) ->
  forall u' v', L ++ sub ++ A1 = u' ++ sub ++ v' -> length L <= length u'.
Proof.
  intros Hmin u' v' Hw. specialize (Hmin (B0 ++ u') (v' ++ A2)).
  rewrite !length_app in Hmin.
  assert ((B0 ++ L) ++ sub ++ A1 ++ A2 = (B0 ++ u') ++ sub ++ v' ++ A2) as E.
  { rewrite <- !app_assoc. f_equal.
    apply (f_equal (fun x => x ++ A2)) in Hw. rewrite <- !app_assoc in Hw. exact Hw. }
  specialize (Hmin E). lia.
Qed.

(** X2.  A target that holds the pattern but cannot be opened for writing:
    the error of the second [open] is not caught, the status is 1, nothing
    is printed and the file system is unchanged. *)
Theorem readonly_target_fails fs text :
  fs p = Present true false text ->
  str_in old text = true ->
  fst (run fs) = inr OSError /\
  status_of fs = 1%Z /\
  output_of fs = [] /\
  files_after fs = fs.
Proof.
  intros Hfs Hin. unfold status_of, output_of, files_after.
  rewrite (run_found_readonly _ Hfs Hin). now repeat split.
Qed.

Lemma readonly_target_fails_witness :
  let fs := only_target true false old in
  (fs p = Present true false old /\ str_in old old = true) /\
  status_of fs = 1%Z /\ output_of fs = [] /\ files_after fs = fs.
Proof.
  intros fs. split; [split; reflexivity|].
  apply (@readonly_target_fails fs old); reflexivity.
Defined.

(** X4.  The success line is printed exactly by the runs that end with
    status 0. *)
Theorem success_line_iff_status_zero :
  forall fs, In msg_patched (output_of fs) <-> status_of fs = 0%Z.
Proof.
  intros fs. unfold output_of, status_of.
  destruct (run_cases fs) as [[text [_ [_ H]]] | [H | [[text H] | H]]];
    rewrite H; cbn [fst snd stdout exit_status].
  - split; [reflexivity | intros _; now left].
  - split; [intros [] | discriminate].
  - split; [intros [E | [E | []]]; discriminate E | discriminate].
  - split; [intros [E | [E | []]]; discriminate E | discriminate].
Qed.

(** X5.  Running the tool twice leaves the file system that running it once
    leaves. *)
Theorem run_twice_files :
  forall fs, files_after (files_after fs) = files_after fs.
Proof.
  intros fs. destruct (status_cases fs) as [[_ [text [Hfs Hin]]] | [_ H]].
  - assert (files_after fs
            = write_file fs p
                (Present true true (replace old new (universal_newlines text))))
      as -> by (unfold files_after; now rewrite (run_found _ Hfs Hin)).
    set (fs' := write_file fs p
                (Present true true (replace old new (universal_newlines text)))).
    assert (fs' p = Present true true (replace old new (universal_newlines text))) as Hfs'
      by apply write_file_same.
    unfold files_after.
    now rewrite (run_marker _ Hfs' (replace_old_clears (universal_newlines text))
                   (marker_after_replace _ (found_as_read _ Hin))).
  - now rewrite !H.
Qed.

(** X6.  A readable target whose text does not hold the marker does not hold
    the pattern either: the run prints the two lines of the marker-missing
    case, changes nothing and ends with status 1. *)
Theorem no_marker_no_pattern fs w text :
  fs p = Present true w text ->
  str_in marker text = false ->
  str_in old text = false /\
  output_of fs = [msg_not_found; msg_no_marker] /\
  files_after fs = fs /\
  status_of fs = 1%Z.
Proof.
  intros Hfs Hm.
  assert (str_in old text = false) as Hold.
  { destruct (str_in old text) eqn:E; [|reflexivity].
    apply marker_of_old in E. congruence. }
  split; [exact Hold|]. unfold output_of, files_after, status_of.
  rewrite (run_no_marker _ Hfs Hold Hm). now repeat split.
Qed.

Lemma no_marker_no_pattern_witness :
  let text := lit "buildSettings = {};" in
  let fs := only_target true false text in
  (fs p = Present true false text /\ str_in marker text = false) /\
  output_of fs = [msg_not_found; msg_no_marker].
Proof.
  intros text fs. split; [split; reflexivity|].
  apply (@no_marker_no_pattern fs false text); reflexivity.
Defined.

(** X7.  In the window the script prints, the first occurrence of the marker
    is where the slice put it: at offset 150, or at its offset in the text
    when that is smaller. *)
Theorem window_marker_offset text :
  str_in marker text = true ->
  exists i,
    find text marker = Z.of_nat i /\
    find (context_of text) marker = Z.of_nat (Nat.min i 150).
Proof.
  intros Hm.
  destruct (find_nat marker text) as [i|] eqn:F;
    [|apply find_nat_none in F; congruence].
  destruct (find_nat_split _ _ F) as [before [after [Ht [Hi Hfirst]]]].
  assert (forall u v, text = u ++ marker ++ v -> length before <= length u) as Hmin
    by (intros u v H; rewrite Hi; exact (Hfirst u v H)).
  exists i. split; [unfold find; now rewrite F|].
  rewrite (@context_of_split text before after Ht Hmin). unfold find.
  rewrite (@find_nat_first marker _ (lastn 150 before) (firstn 182 after) eq_refl).
  - unfold lastn. rewrite length_skipn. f_equal. lia.
  - apply first_in_window
      with (B0 := firstn (length before - 150) before) (A2 := skipn 182 after).
    unfold lastn. rewrite !firstn_skipn, <- Ht. exact Hmin.
Qed.

Lemma window_marker_offset_witness :
  let text := lit "ab" ++ marker ++ lit "cd" ++ marker in
  str_in marker text = true /\
  exists i, find text marker = Z.of_nat i /\
            find (context_of text) marker = Z.of_nat (Nat.min i 150).
Proof.
  intros text. assert (str_in marker text = true) as Hm by reflexivity.
  split; [exact Hm | exact (window_marker_offset text Hm)].
Defined.

(** X8.  A run that ends with status 0 leaves a text that is longer than
    the text as read: by 55 characters, the difference between replacement
    and pattern, for each of the one or more occurrences it replaced. *)
Theorem patched_text_grows fs :
  status_of fs = 0%Z ->
  exists text text' k,
    fs p = Present true true text /\
    files_after fs p = Present true true text' /\
    1 <= k /\
    length text' = length (universal_newlines text) + 55 * k.
Proof.
  intros Hs. destruct (status_zero_inv _ Hs) as [text [Hfs Hin]].
  destruct (replace_length new (universal_newlines text) old_nonempty)
    as [k [Hk Hpos]].
  exists text, (replace old new (universal_newlines text)), k.
  split; [exact Hfs|]. split.
  - unfold files_after. rewrite (run_found _ Hfs Hin). apply write_file_same.
  - rewrite length_old, length_new in Hk.
    split; [exact (Hpos (found_as_read _ Hin)) | lia].
Qed.

Lemma patched_text_grows_witness :
  let fs := only_target true true (old ++ [13%N; 10%N] ++ old) in
  status_of fs = 0%Z /\
  exists text text' k,
    fs p = Present true true text /\
    files_after fs p = Present true true text' /\
    1 <= k /\
    length text' = length (universal_newlines text) + 55 * k.
Proof.
  intros fs. assert (status_of fs = 0%Z) as Hs by reflexivity.
  split; [exact Hs | exact (patched_text_grows fs Hs)].
Defined.

(** X9.  After a run that ends with status 0 the text of the target holds
    the replacement. *)
Theorem patched_text_holds_replacement fs :
  status_of fs = 0%Z ->
  exists text', files_after fs p = Present true true text' /\
                str_in new text' = true.
Proof.
  intros Hs. destruct (status_zero_inv _ Hs) as [text [Hfs Hin]].
  exists (replace old new (universal_newlines text)). split.
  - unfold files_after. rewrite (run_found _ Hfs Hin). apply write_file_same.
  - apply str_in_spec, replace_leaves_rep;
      [exact old_nonempty | exact (found_as_read _ Hin)].
Qed.

Lemma patched_text_holds_replacement_witness :
  let fs := only_target true true (lit "sh " ++ old) in
  status_of fs = 0%Z /\
  exists text', files_after fs p = Present true true text' /\
                str_in new text' = true.
Proof.
  intros fs. assert (status_of fs = 0%Z) as Hs by reflexivity.
  split; [exact Hs | exact (patched_text_holds_replacement fs Hs)].
Defined.

(** X10.  Whatever the text, the window the script would print is a piece of
    that text and has at most 350 characters. *)
Theorem window_is_part_of_text :
  forall text, occurs (context_of text) text /\ length (context_of text) <= 350.
Proof.
  intros text. unfold context_of. split; [apply slice_occurs|].
  pose proof (find_lower text marker) as Hl.
  etransitivity; [apply slice_length; lia | lia].
Qed.
